(** * Hermes: the device-timer coordinator of the paho.mqtt.golang fork

    A shallow embedding of the latest revision of [hermes.go]
    ([hermes] struct, [sendTimer], [GetCanSend], [GetCurrentSendInterval],
    [HandleReceiveModel], [HandleReceiveInterval], [ResetCanSend],
    [GetHandlers], [PingHades], [saveModel], [SetSendInterval],
    [RequestNewModel], [RequestNewInterval]) and of the test helpers
    [bin] and [fizzBuzz].

    - Go maps are stdpp [gmap]s; a missing key reads as the zero value.
    - [*time.Ticker] values live in a heap [tickers] addressed by
      [positive] pointers; a missing [sendTicker] entry is the nil pointer.
      A ticker's channel [C] has capacity one: [tk_pending].
    - A Go runtime panic (nil dereference, [time.NewTicker] on a
      non-positive period) is [None] in the state/error monad [M].
    - Channel sends of the protocol handlers are recorded as [Effect]s;
      the Timer Owner ([sendTimer]) consumes them one at a time. *)

From Stdlib Require Import ZArith Ascii.
From stdpp Require Import base gmap strings list.

Local Open Scope Z_scope.

(** ** Durations ([time.Duration], nanoseconds) *)

Abbreviation Duration := Z.
Definition Nanosecond : Duration := 1.
Definition Second : Duration := 1000000000.
Definition Minute : Duration := 60 * Second.

(** ** Constants of hermes.go *)

Definition modelsDir : string := "./models".
Definition hermesPrefix : string := "hermes".
Definition hadesPrefix : string := "hades".
Definition TimerSendInterval : string := "timerSendInterval".
Definition TimerReceiveInterval : string := "timerRecvInterval".

(** ** Data model *)

(** [time.Ticker]: its period, whether [Stop] was called, and whether its
    one-slot channel [C] holds an undelivered tick. *)
Record Ticker := mkTicker {
  tk_period : Duration;
  tk_stopped : bool;
  tk_pending : bool
}.

(** [Timer]: the control message carried by [setTimer]. *)
Record Timer := mkTimer {
  duration : Duration;
  timerType : string;
  mac : string
}.

(** The handler functions a [TopicHandler] may hold. *)
Inductive HandlerFn :=
| HReceiveModel
| HReceiveInterval
| HPingResponse.

Record TopicHandler := mkTopicHandler {
  Topic : string;
  QoS : Z;
  Handler : HandlerFn
}.

(** The fields of [hermes] the claims touch, plus the ticker heap. *)
Record hermes := mkHermes {
  initialModel : bool;
  currentSendInterval : gmap string Duration;
  sendTicker : gmap string positive;
  canSend : gmap string bool;
  handlers : list TopicHandler;
  tickers : gmap positive Ticker;
  next_ticker : positive
}.

Definition set_initialModel (b : bool) (h : hermes) : hermes :=
  mkHermes b (currentSendInterval h) (sendTicker h) (canSend h)
           (handlers h) (tickers h) (next_ticker h).
Definition set_currentSendInterval (m : gmap string Duration) (h : hermes) : hermes :=
  mkHermes (initialModel h) m (sendTicker h) (canSend h)
           (handlers h) (tickers h) (next_ticker h).
Definition set_sendTicker (m : gmap string positive) (h : hermes) : hermes :=
  mkHermes (initialModel h) (currentSendInterval h) m (canSend h)
           (handlers h) (tickers h) (next_ticker h).
Definition set_canSend (m : gmap string bool) (h : hermes) : hermes :=
  mkHermes (initialModel h) (currentSendInterval h) (sendTicker h) m
           (handlers h) (tickers h) (next_ticker h).
Definition set_handlers (l : list TopicHandler) (h : hermes) : hermes :=
  mkHermes (initialModel h) (currentSendInterval h) (sendTicker h) (canSend h)
           l (tickers h) (next_ticker h).
Definition set_heap (t : gmap positive Ticker) (n : positive) (h : hermes) : hermes :=
  mkHermes (initialModel h) (currentSendInterval h) (sendTicker h) (canSend h)
           (handlers h) t n.

(** ** The state/panic monad *)

Definition M (A : Type) : Type := hermes -> option (A * hermes).

Definition ret {A} (a : A) : M A := fun h => Some (a, h).
Definition bind {A B} (m : M A) (k : A -> M B) : M B :=
  fun h => match m h with
           | None => None
           | Some (a, h') => k a h'
           end.
(** A Go runtime panic. *)
Definition panic {A} : M A := fun _ => None.
Definition get : M hermes := fun h => Some (h, h).
Definition modify (f : hermes -> hermes) : M unit := fun h => Some (tt, f h).

Notation "x <-- m ;; k" := (bind m (fun x => k))
  (at level 100, m at level 99, k at level 200, right associativity).
Notation "m ;;; k" := (bind m (fun _ => k))
  (at level 100, k at level 200, right associativity).

(** ** Go map reads: a missing key yields the zero value *)

Definition read_interval (h : hermes) (k : string) : Duration :=
  default 0 (currentSendInterval h !! k).
Definition read_canSend (h : hermes) (k : string) : bool :=
  default false (canSend h !! k).

(** ** [time] package operations *)

(** [time.NewTicker(d)]: panics on a non-positive period. *)
Definition NewTicker (d : Duration) : M positive :=
  if Z.leb d 0 then panic
  else fun h =>
    let p := next_ticker h in
    Some (p, set_heap (<[p := mkTicker d false false]> (tickers h))
                      (Pos.succ p) h).

(** [t.Stop()] on a pointer read from [sendTicker]: the nil pointer
    ([None]) is dereferenced, which panics. *)
Definition Stop (t : option positive) : M unit :=
  match t with
  | None => panic
  | Some p => fun h =>
      match tickers h !! p with
      | None => None
      | Some tk =>
          Some (tt, set_heap (<[p := mkTicker (tk_period tk) true (tk_pending tk)]>
                                (tickers h)) (next_ticker h) h)
      end
  end.

(** The runtime delivers a tick on the channel of ticker [p] (a tick is
    dropped when the one-slot channel is full or the ticker is stopped). *)
Definition tick (p : positive) (h : hermes) : hermes :=
  match tickers h !! p with
  | Some tk =>
      if tk_stopped tk then h
      else set_heap (<[p := mkTicker (tk_period tk) false true]> (tickers h))
                    (next_ticker h) h
  | None => h
  end.

(** ** Initialize (the parts the claims use) *)

Definition Initialize : hermes :=
  {| initialModel := true;
     currentSendInterval := ∅;
     sendTicker := ∅;
     canSend := ∅;
     handlers := [ mkTopicHandler "node/+/+/hades/model/receive" 1 HReceiveModel;
                   mkTopicHandler "node/+/+/hades/interval/receive" 1 HReceiveInterval ];
     tickers := ∅;
     next_ticker := 1%positive |}.

(** ** Timer Owner: one iteration of the [sendTimer] select loop *)

(** The two control channels [setTimer] and [resetTimer]. *)
Inductive Ctrl :=
| CSetTimer (t : Timer)
| CResetTimer (m : string).

Definition sendTimer_step (c : Ctrl) : M unit :=
  match c with
  | CSetTimer newTime =>
      let m := mac newTime in
      if String.eqb (timerType newTime) TimerSendInterval then
        h <-- get ;;
        (* clean resources *)
        (match sendTicker h !! m with
         | Some p => Stop (Some p)
         | None => ret tt
         end) ;;;
        (* when initiating a new ticker - we disable sending *)
        modify (fun h => set_currentSendInterval
                           (<[m := duration newTime]> (currentSendInterval h)) h) ;;;
        p <-- NewTicker (duration newTime) ;;
        modify (fun h => set_sendTicker (<[m := p]> (sendTicker h)) h) ;;;
        modify (fun h => set_canSend (<[m := false]> (canSend h)) h)
      else ret tt
  | CResetTimer m =>
      modify (fun h => set_canSend (<[m := false]> (canSend h)) h) ;;;
      h <-- get ;;
      Stop (sendTicker h !! m) ;;;
      h <-- get ;;
      p <-- NewTicker (read_interval h m) ;;
      modify (fun h => set_sendTicker (<[m := p]> (sendTicker h)) h)
  end.

(** ** Queries *)

Definition deref (p : positive) : M Ticker :=
  fun h => match tickers h !! p with
           | Some tk => Some (tk, h)
           | None => None
           end.

(** [GetCanSend]: default-open when no rule is set, otherwise a
    non-blocking receive on the ticker's channel. *)
Definition GetCanSend (m : string) : M bool :=
  h <-- get ;;
  match sendTicker h !! m with
  | Some p =>
      if Nat.eqb (size (canSend h)) 0 then ret true
      else
        tk <-- deref p ;;
        (if tk_pending tk then
           modify (fun h => set_heap (<[p := mkTicker (tk_period tk) (tk_stopped tk) false]>
                                       (tickers h)) (next_ticker h) h) ;;;
           modify (fun h => set_canSend (<[m := true]> (canSend h)) h)
         else
           modify (fun h => set_canSend (<[m := false]> (canSend h)) h)) ;;;
        h <-- get ;;
        ret (read_canSend h m)
  | None => ret true
  end.

(** [GetCurrentSendInterval]: a stored zero (or missing) interval reads
    as one second. *)
Definition GetCurrentSendInterval (h : hermes) (m : string) : Duration :=
  if Z.eqb (read_interval h m) 0 then Second * 1 else read_interval h m.

(** ** Topic Parser *)

(** Modelled from the spec: [parseTopicMac] is called by
    [HandleReceiveModel] and [HandleReceiveInterval] and tested by
    [TestParseMac], but its body is not among the repository's files.
    Spec, 4.4: "locate the segment matching the MAC-address shape (six
    colon-separated two-hex-digit groups) among the topic's slash-separated
    segments and return it; return empty string if no segment matches the
    shape exactly". *)

(** [strings.Split(topic, "/")] *)
Fixpoint split_slash_acc (acc : string) (s : string) : list string :=
  match s with
  | EmptyString => [acc]
  | String c rest =>
      if Ascii.eqb c "/"%char then acc :: split_slash_acc EmptyString rest
      else split_slash_acc (String.append acc (String c EmptyString)) rest
  end.
Definition split_slash (s : string) : list string := split_slash_acc EmptyString s.

Definition is_hex (c : Ascii.ascii) : bool :=
  let n := Ascii.nat_of_ascii c in
  (Nat.leb 48 n && Nat.leb n 57) || (Nat.leb 65 n && Nat.leb n 70)
  || (Nat.leb 97 n && Nat.leb n 102).

(** [n] two-hex-digit groups separated by colons, and nothing else. *)
Fixpoint mac_groups (n : nat) (s : string) : bool :=
  match n, s with
  | 1%nat, String a (String b EmptyString) => is_hex a && is_hex b
  | S n', String a (String b (String c rest)) =>
      is_hex a && is_hex b && Ascii.eqb c ":"%char && mac_groups n' rest
  | _, _ => false
  end.

Definition is_mac (s : string) : bool := mac_groups 6 s.

Definition parseTopicMac (topic : string) : string :=
  match List.find is_mac (split_slash topic) with
  | Some seg => seg
  | None => EmptyString
  end.

(** ** Messages and the effects of the protocol handlers *)

(** [Message]: its [Topic()] and [Payload()]. *)
Record Message := mkMessage {
  msg_topic : string;
  msg_payload : list Byte.byte
}.

(** What a handler does outside the [hermes] record: a file write, a send
    on [setTimer] or [resetTimer], or an MQTT publish. *)
Inductive Effect :=
| WriteFile (name : string) (data : list Byte.byte)
| SendSetTimer (t : Timer)
| SendResetTimer (m : string)
| Publish (topic : string) (qos : Z) (retained : bool) (payload : list Byte.byte).

(** [SendIntervalPayload]: what [json.Unmarshal] leaves in the struct
    (zero values for the fields it did not fill). *)
Record SendIntervalPayload := mkSendIntervalPayload {
  sp_MAC : string;
  SendInterval : Z
}.

(** Two's-complement wrap-around of Go's 64-bit [int]/[time.Duration]. *)
Definition wrap64 (z : Z) : Z := ((z + 2 ^ 63) mod 2 ^ 64) - 2 ^ 63.

(** [saveModel]: the write of [./models/model_<mac>.tflite]; a write error
    is only logged. *)
Definition saveModel (model : list Byte.byte) (m : string) : list Effect :=
  [WriteFile (String.append modelsDir
               (String.append "/model_" (String.append m ".tflite"))) model].

Definition HandleReceiveModel (msg : Message) (h : hermes) : hermes * list Effect :=
  (* retrieve MAC address so we should know for whom to set the timer *)
  let m := parseTopicMac (msg_topic msg) in
  let eff := saveModel (msg_payload msg) m in
  (* mark that initial model is received *)
  let h' := set_initialModel false h in
  (h', eff ++ [SendSetTimer (mkTimer (Second * 10) TimerSendInterval m)]).

Section Interval.
(** The result of [json.Unmarshal(msg.Payload(), &payload)] on a zeroed
    [payload]; a decode error is only logged. *)
Variable Unmarshal : list Byte.byte -> SendIntervalPayload.

Definition HandleReceiveInterval (msg : Message) (h : hermes) : hermes * list Effect :=
  let m := parseTopicMac (msg_topic msg) in
  let payload := Unmarshal (msg_payload msg) in
  if Z.eqb (SendInterval payload) 0 || String.eqb m EmptyString then (h, [])
  else (h, [SendSetTimer (mkTimer (wrap64 (Minute * SendInterval payload))
                                 TimerSendInterval m)]).
End Interval.

(** [ResetCanSend] *)
Definition ResetCanSend (m : string) : list Effect :=
  if negb (String.eqb m EmptyString) then [SendResetTimer m] else [].

(** The Timer Owner receives the control messages a handler sent, in
    order; other effects do not reach it. *)
Fixpoint deliver (es : list Effect) : M unit :=
  match es with
  | [] => ret tt
  | SendSetTimer t :: es' => sendTimer_step (CSetTimer t) ;;; deliver es'
  | SendResetTimer m :: es' => sendTimer_step (CResetTimer m) ;;; deliver es'
  | _ :: es' => deliver es'
  end.

(** ** GetHandlers: rewrites [h.handlers] in place and returns it *)

Definition prefix_topic (th : TopicHandler) : TopicHandler :=
  mkTopicHandler (String.append hermesPrefix (String.append "/" (Topic th)))
                 (QoS th) (Handler th).

Definition GetHandlers (h : hermes) : list TopicHandler * hermes :=
  let h' := set_handlers (map prefix_topic (handlers h)) h in
  (handlers h', h').

(** [ClientHermesReader.GetHandlers]: returns the stored slice as is. *)
Definition Reader_GetHandlers (h : hermes) : list TopicHandler := handlers h.

(** ** PingHades *)

Section Ping.
(** [c.Publish(topic, qos, retained, payload)], reduced to the error its
    token reports ([None] when the publish succeeded). *)
Variable publish : string -> Z -> bool -> list Byte.byte -> option string.

Definition pingTopic (m : string) : string :=
  String.append hadesPrefix (String.append "/global/" (String.append m "/ping")).

Definition PingHades (m : string) : bool :=
  match publish (pingTopic m) 1 false [] with
  | Some _ => (* failed to ping hades *) false
  | None => false
  end.
End Ping.

(** The [setTimer] messages among a handler's effects. *)
Fixpoint timer_sends (es : list Effect) : list Timer :=
  match es with
  | [] => []
  | SendSetTimer t :: es' => t :: timer_sends es'
  | _ :: es' => timer_sends es'
  end.

(** ** Well-formed ticker heap *)

(** Every allocated ticker lies below the allocation pointer, and every
    ticker stored in [sendTicker] is allocated. *)
Definition wf (h : hermes) : Prop :=
  (forall p tk, tickers h !! p = Some tk -> (p < next_ticker h)%positive) /\
  (forall k p, sendTicker h !! k = Some p -> is_Some (tickers h !! p)).

(** ** Runs of the coordinator *)

(** What can happen to the registry: the Timer Owner receives a control
    message, a caller runs [GetCanSend], or a ticker fires. *)
Inductive Event :=
| EvCtrl (c : Ctrl)
| EvCanSend (m : string)
| EvTick (p : positive).

Definition step (e : Event) : M unit :=
  match e with
  | EvCtrl c => sendTimer_step c
  | EvCanSend m => GetCanSend m ;;; ret tt
  | EvTick p => modify (tick p)
  end.

Fixpoint run (evs : list Event) : M unit :=
  match evs with
  | [] => ret tt
  | e :: evs' => step e ;;; run evs'
  end.

Definition ctrl_mac (c : Ctrl) : string :=
  match c with
  | CSetTimer t => mac t
  | CResetTimer m => m
  end.

(** Registry entries of a device: its ticker pointer and its interval. *)
Definition entry_of (h : hermes) (k : string) : option positive * option Duration :=
  (sendTicker h !! k, currentSendInterval h !! k).

Ltac step_case :=
  match goal with
  | H : context [match ?x with _ => _ end] |- _ =>
      let E := fresh "E" in destruct x eqn:E; simpl in H; try discriminate H;
      simplify_eq/=
  end.

Definition no_set_for (m : string) (evs : list Event) : Prop :=
  forall t, In (EvCtrl (CSetTimer t)) evs -> mac t = m -> timerType t <> TimerSendInterval.


(** A run that sets, fires, queries and resets the ticker of one device. *)
Definition sample_run : list Event :=
  [EvCtrl (CSetTimer (mkTimer Second TimerSendInterval "AA:BB:CC:DD:EE:FF"));
   EvTick 1%positive; EvCanSend "AA:BB:CC:DD:EE:FF";
   EvCtrl (CResetTimer "AA:BB:CC:DD:EE:FF")].

(** ** Test helpers of interpreter_test.go *)

(** [bin(n, num_digits)]: the [num_digits] low bits of [n], least
    significant first. The [float32] entries are 0 or 1, kept as [Z];
    [make] with a negative length panics ([None]). Go's [>>] on [int] is
    the arithmetic shift [Z.shiftr]. *)
Definition bin (n num_digits : Z) : option (list Z) :=
  if Z.ltb num_digits 0 then None
  else Some (map (fun i => Z.land (Z.shiftr n (Z.of_nat i)) 1)
                 (seq 0 (Z.to_nat num_digits))).

(** [fizzBuzz]: Go's [%] truncates, as [Z.rem]. *)
Definition fizzBuzz (number : Z) : Z :=
  if Z.eqb (Z.rem number 15) 0 then 3
  else if Z.eqb (Z.rem number 5) 0 then 2
  else if Z.eqb (Z.rem number 3) 0 then 1
  else 0.

(** The weight of a bit list, least significant bit first. *)
Fixpoint bits_value (l : list Z) : Z :=
  match l with
  | [] => 0
  | b :: l' => b + 2 * bits_value l'
  end.

(** ** Other operations of hermes.go *)

(** The file [saveModel] writes for a device. *)
Definition modelName (m : string) : string :=
  String.append modelsDir (String.append "/model_" (String.append m ".tflite")).

(** [SetSendInterval]: one send on [setTimer]. *)
Definition SetSendInterval (m : string) (interval : Duration) : list Effect :=
  [SendSetTimer (mkTimer interval TimerSendInterval m)].

(** [RequestModelPayload]; [last_model_update] is a [time.Time], kept
    abstract as [Z]. *)
Record RequestModelPayload := mkRequestModelPayload {
  rq_MAC : string;
  rq_LastModelUpdate : Z;
  rq_Initial : bool
}.

(** The payload [RequestNewModel] and [RequestNewInterval] build from the
    [hermes] fields [lastModelUpdate] and [initialModel]. *)
Definition requestPayload (lastModelUpdate : Z) (m : string) (h : hermes)
  : RequestModelPayload :=
  mkRequestModelPayload m lastModelUpdate (initialModel h).

Definition modelRequestTopic (m : string) : string :=
  String.append hadesPrefix (String.append "/global/" (String.append m "/model/request")).
Definition intervalRequestTopic (m : string) : string :=
  String.append hadesPrefix (String.append "/global/" (String.append m "/interval/request")).

Section Requests.
(** [json.Marshal]: the encoded bytes or its error. *)
Variable Marshal : RequestModelPayload -> list Byte.byte + string.
(** [c.Publish(...)], reduced to the error of its token ([None]: nil). *)
Variable publish : string -> Z -> bool -> list Byte.byte -> option string.

(** Shared body of the two requests: marshal, publish, return the error. *)
Definition publishRequest (topic : string) (payload : RequestModelPayload)
  : option string * list Effect :=
  match Marshal payload with
  | inr err => (Some err, [])
  | inl resp =>
      (publish topic 1 false resp, [Publish topic 1 false resp])
  end.

Definition RequestNewModel (lastModelUpdate : Z) (m : string) (h : hermes)
  : option string * list Effect :=
  publishRequest (modelRequestTopic m) (requestPayload lastModelUpdate m h).

Definition RequestNewInterval (lastModelUpdate : Z) (m : string) (h : hermes)
  : option string * list Effect :=
  publishRequest (intervalRequestTopic m) (requestPayload lastModelUpdate m h).
End Requests.

(** ** The whole coordinator: handlers, Timer Owner and readers *)

(** An inbound message handled, a library call, or a ticker firing. A
    handler's sends on [setTimer]/[resetTimer] are unbuffered, so the
    Timer Owner processes them before the handler returns. *)
Inductive SysEvent :=
| SModel (msg : Message)
| SInterval (msg : Message)
| SResetCanSend (m : string)
| SSetSendInterval (m : string) (d : Duration)
| SCanSend (m : string)
| STick (p : positive).

Definition handle_then_deliver (r : hermes * list Effect) : M unit :=
  fun _ => deliver (snd r) (fst r).

Definition sys_step (Unmarshal : list Byte.byte -> SendIntervalPayload)
  (e : SysEvent) : M unit :=
  match e with
  | SModel msg => h <-- get ;; handle_then_deliver (HandleReceiveModel msg h)
  | SInterval msg => h <-- get ;; handle_then_deliver (HandleReceiveInterval Unmarshal msg h)
  | SResetCanSend m => deliver (ResetCanSend m)
  | SSetSendInterval m d => deliver (SetSendInterval m d)
  | SCanSend m => GetCanSend m ;;; ret tt
  | STick p => modify (tick p)
  end.

Fixpoint sys_run (Unmarshal : list Byte.byte -> SendIntervalPayload)
  (evs : list SysEvent) : M unit :=
  match evs with
  | [] => ret tt
  | e :: evs' => sys_step Unmarshal e ;;; sys_run Unmarshal evs'
  end.

Definition is_model_event (e : SysEvent) : bool :=
  match e with SModel _ => true | _ => false end.

(** ** Registry invariant *)

(** The heap is well formed, every stored interval is positive, and
    every device with a ticker has an interval and a [canSend] entry. *)
Definition inv (h : hermes) : Prop :=
  wf h /\
  (forall k d, currentSendInterval h !! k = Some d -> 0 < d) /\
  (forall k p, sendTicker h !! k = Some p ->
     is_Some (currentSendInterval h !! k) /\ is_Some (canSend h !! k)).

Definition stopped (tk : Ticker) : Ticker := mkTicker (tk_period tk) true (tk_pending tk).

(** The heap once the ticker stored for [m], if any, has been stopped. *)
Definition stop_old (h : hermes) (m : string) : gmap positive Ticker :=
  match sendTicker h !! m with
  | Some p =>
      match tickers h !! p with
      | Some tk => <[p := stopped tk]> (tickers h)
      | None => tickers h
      end
  | None => tickers h
  end.

(** The registry after a [TimerSet] of period [d] for [m]. *)
Definition after_set (h : hermes) (m : string) (d : Duration) : hermes :=
  mkHermes (initialModel h) (<[m := d]> (currentSendInterval h))
           (<[m := next_ticker h]> (sendTicker h)) (<[m := false]> (canSend h))
           (handlers h) (<[next_ticker h := mkTicker d false false]> (stop_old h m))
           (Pos.succ (next_ticker h)).

(** The registry after a reset of [m]. *)
Definition after_reset (h : hermes) (m : string) : hermes :=
  mkHermes (initialModel h) (currentSendInterval h)
           (<[m := next_ticker h]> (sendTicker h)) (<[m := false]> (canSend h))
           (handlers h)
           (<[next_ticker h := mkTicker (read_interval h m) false false]> (stop_old h m))
           (Pos.succ (next_ticker h)).

(** * Properties *)

(** The [TestParseMac] cases on the spec model of the parser. *)
Example parse_ex1 : parseTopicMac "hermes/global/AA:BB:CC:DD:EE:FF/model/receive" = "AA:BB:CC:DD:EE:FF".
Proof. reflexivity. Qed.
Example parse_ex2 : parseTopicMac "hermes/AA:BB:CC:DD:EE/global/send" = "".
Proof. reflexivity. Qed.
Example parse_ex3 : parseTopicMac "randomlongtext:randomverylongtext/global/send" = "".
Proof. reflexivity. Qed.


(** C1: on [TimerReset{mac}] with no ticker stored for [mac], the Timer
    Owner dereferences the nil [*time.Ticker] in [h.sendTicker[mac].Stop()]
    and panics (it is not a no-op). *)
Theorem reset_without_ticker_panics (h : hermes) (m : string)
  (Hnone : sendTicker h !! m = None) :
  sendTimer_step (CResetTimer m) h = None.
Proof.
  unfold sendTimer_step, bind, modify, get. simpl. rewrite Hnone. reflexivity.
Qed.

Lemma reset_without_ticker_panics_witness :
  sendTicker Initialize !! "AA:BB:CC:DD:EE:FF" = None /\
  sendTimer_step (CResetTimer "AA:BB:CC:DD:EE:FF") Initialize = None.
Proof.
  split; [reflexivity |].
  apply (reset_without_ticker_panics Initialize "AA:BB:CC:DD:EE:FF"). reflexivity.
Defined.

(** C2: a model message whose topic yields no device id is not discarded:
    [HandleReceiveModel] still writes [./models/model_.tflite], clears
    [initialModel] and sends [TimerSet{10s, SendInterval, ""}]. *)
Theorem model_bad_topic_still_handled (msg : Message) (h : hermes)
  (Hbad : parseTopicMac (msg_topic msg) = "") :
  HandleReceiveModel msg h =
    (set_initialModel false h,
     [WriteFile "./models/model_.tflite" (msg_payload msg);
      SendSetTimer (mkTimer (Second * 10) TimerSendInterval "")]).
Proof.
  unfold HandleReceiveModel, saveModel. rewrite Hbad. reflexivity.
Qed.

Lemma model_bad_topic_still_handled_witness :
  parseTopicMac "hermes/AA:BB:CC:DD:EE/global/send" = "" /\
  HandleReceiveModel (mkMessage "hermes/AA:BB:CC:DD:EE/global/send" [Byte.x1c])
                     Initialize =
    (set_initialModel false Initialize,
     [WriteFile "./models/model_.tflite" [Byte.x1c];
      SendSetTimer (mkTimer (Second * 10) TimerSendInterval "")]).
Proof.
  split; [reflexivity |].
  apply (model_bad_topic_still_handled
           (mkMessage "hermes/AA:BB:CC:DD:EE/global/send" [Byte.x1c]) Initialize).
  reflexivity.
Defined.

(** C4: an interval message with [send_interval = 0] or a topic without a
    device id sends no [TimerSet], and the hermes state (so the registry)
    is unchanged, also once the Timer Owner has consumed what was sent. *)
Theorem interval_invalid_discarded
  (Unmarshal : list Byte.byte -> SendIntervalPayload) (msg : Message) (h : hermes)
  (Hinv : SendInterval (Unmarshal (msg_payload msg)) = 0 \/
          parseTopicMac (msg_topic msg) = "") :
  HandleReceiveInterval Unmarshal msg h = (h, []) /\
  timer_sends (snd (HandleReceiveInterval Unmarshal msg h)) = [] /\
  deliver (snd (HandleReceiveInterval Unmarshal msg h)) h = Some (tt, h).
Proof.
  assert (E : HandleReceiveInterval Unmarshal msg h = (h, [])).
  { unfold HandleReceiveInterval.
    destruct Hinv as [H0 | H0]; rewrite H0; simpl.
    - reflexivity.
    - rewrite orb_true_r. reflexivity. }
  rewrite E. repeat split.
Qed.

Lemma interval_invalid_discarded_witness :
  HandleReceiveInterval (fun _ => mkSendIntervalPayload "AA:BB:CC:DD:EE:FF" 0)
    (mkMessage "hermes/global/AA:BB:CC:DD:EE:FF/interval/receive" []) Initialize
  = (Initialize, []).
Proof.
  apply (interval_invalid_discarded
           (fun _ => mkSendIntervalPayload "AA:BB:CC:DD:EE:FF" 0)
           (mkMessage "hermes/global/AA:BB:CC:DD:EE:FF/interval/receive" [])
           Initialize).
  left. reflexivity.
Defined.

(** C5: whatever the prior state, a model message clears [initialModel]
    (and nothing else of the state) and sends exactly one [TimerSet]:
    ten seconds, [TimerSendInterval], the parsed device id. *)
Theorem model_received_rearms (msg : Message) (h : hermes) :
  fst (HandleReceiveModel msg h) = set_initialModel false h /\
  initialModel (fst (HandleReceiveModel msg h)) = false /\
  timer_sends (snd (HandleReceiveModel msg h)) =
    [mkTimer (Second * 10) TimerSendInterval (parseTopicMac (msg_topic msg))] /\
  Second * 10 = 10000000000.
Proof. repeat split. Qed.

(** C8: [PingHades] reports [false] whether the publish failed or not. *)
Theorem PingHades_always_false
  (publish : string -> Z -> bool -> list Byte.byte -> option string) (m : string) :
  PingHades publish m = false.
Proof. unfold PingHades. destruct (publish _ _ _ _); reflexivity. Qed.

Lemma string_length_append (p t : string) :
  String.length (String.append p t) = (String.length p + String.length t)%nat.
Proof. induction p as [| c p IH]; simpl; [reflexivity | by rewrite IH]. Qed.


(** C9: [GetHandlers] rewrites the stored handlers in place, so a second
    call prefixes every topic with "hermes/" once more: "hermes/hermes/...".
    With at least one handler (as after [Initialize]) the two calls return
    different handlers. *)
Theorem GetHandlers_not_idempotent (h : hermes) :
  map Topic (fst (GetHandlers h)) =
    map (fun t => String.append "hermes/" t) (map Topic (handlers h)) /\
  Reader_GetHandlers (snd (GetHandlers h)) = fst (GetHandlers h) /\
  map Topic (fst (GetHandlers (snd (GetHandlers h)))) =
    map (fun t => String.append "hermes/hermes/" t) (map Topic (handlers h)) /\
  (handlers h <> [] -> fst (GetHandlers (snd (GetHandlers h))) <> fst (GetHandlers h)).
Proof.
  unfold GetHandlers; simpl. rewrite !map_map. split; [| split; [reflexivity | split]].
  - apply map_ext. intros th. reflexivity.
  - apply map_ext. intros th. reflexivity.
  - destruct (handlers h) as [| th ths]; [done |]. intros _ E. simpl in E.
    injection E as E1 _. apply (f_equal String.length) in E1.
    rewrite !string_length_append in E1. simpl in E1. lia.
Qed.

(** C10: [ResetCanSend ""] sends nothing, so no state changes; any other
    id sends exactly one [resetTimer] message. *)
Theorem ResetCanSend_empty_noop :
  ResetCanSend "" = [] /\
  (forall h, deliver (ResetCanSend "") h = Some (tt, h)) /\
  (forall m, m <> "" -> ResetCanSend m = [SendResetTimer m]).
Proof.
  split; [reflexivity | split; [reflexivity |]].
  intros m Hm. unfold ResetCanSend.
  destruct (String.eqb_spec m "") as [E | _]; [contradiction | reflexivity].
Qed.

Lemma wf_Initialize : wf Initialize.
Proof.
  split; simpl; [intros p tk H | intros k p H]; rewrite lookup_empty in H; discriminate.
Qed.

Lemma wf_fresh (h : hermes) : wf h -> tickers h !! next_ticker h = None.
Proof.
  intros [Hlt _]. destruct (tickers h !! next_ticker h) as [tk |] eqn:E; [| done].
  apply Hlt in E. lia.
Qed.

Lemma is_Some_insert (t : gmap positive Ticker) (p q : positive) (tk : Ticker) :
  is_Some (t !! q) -> is_Some (<[p := tk]> t !! q).
Proof. rewrite lookup_insert. case_decide; done. Qed.

(** C3 (amended): for a positive duration [d], [TimerSet{d, SendInterval,
    id}] stops the ticker stored for [id] if there is one, records [d] as
    the interval of [id], installs a freshly allocated ticker of period [d]
    for [id], and closes the gate of [id]; nothing else changes. *)
Theorem set_timer_rearms (h : hermes) (m : string) (d : Duration)
  (Hd : 0 < d) (Hwf : wf h) :
  exists h',
    sendTimer_step (CSetTimer (mkTimer d TimerSendInterval m)) h = Some (tt, h') /\
    (forall p tk, sendTicker h !! m = Some p -> tickers h !! p = Some tk ->
       tickers h' !! p = Some (mkTicker (tk_period tk) true (tk_pending tk))) /\
    currentSendInterval h' = <[m := d]> (currentSendInterval h) /\
    (exists p', tickers h !! p' = None /\
                sendTicker h' = <[m := p']> (sendTicker h) /\
                tickers h' !! p' = Some (mkTicker d false false)) /\
    canSend h' = <[m := false]> (canSend h) /\
    initialModel h' = initialModel h /\ handlers h' = handlers h /\
    (forall q, sendTicker h !! m <> Some q -> sendTicker h' !! m <> Some q ->
       tickers h' !! q = tickers h !! q) /\
    wf h'.
Proof.
  pose proof (wf_fresh h Hwf) as Hfresh.
  destruct Hwf as [Hlt Hall].
  assert (Hd' : Z.leb d 0 = false) by (apply Z.leb_gt; lia).
  unfold sendTimer_step, bind, get, modify, NewTicker. simpl. rewrite Hd'.
  destruct (sendTicker h !! m) as [p |] eqn:Ep.
  - destruct (Hall m p Ep) as [tk Htk]. simpl. rewrite Htk. simpl.
    assert (Hpn : p <> next_ticker h) by (intros ->; congruence).
    eexists. split; [reflexivity |]. simpl.
    split; [| split; [reflexivity | split; [| split; [reflexivity | split; [reflexivity | split; [reflexivity | split]]]]]].
    + intros p0 tk0 [= <-] Htk0. rewrite Htk in Htk0. injection Htk0 as <-.
      rewrite lookup_insert_ne by congruence. by rewrite lookup_insert_eq.
    + exists (next_ticker h). split; [exact Hfresh | split; [reflexivity |]].
      by rewrite lookup_insert_eq.
    + intros q Hq Hq'. rewrite lookup_insert_eq in Hq'.
      rewrite lookup_insert_ne by congruence.
      rewrite lookup_insert_ne by congruence. reflexivity.
    + split; simpl.
      * intros q tq Hq. rewrite lookup_insert in Hq. case_decide as Hqn; [subst; lia |].
        rewrite lookup_insert in Hq. case_decide as Hqp; [subst; apply Hlt in Htk; lia |].
        apply Hlt in Hq. lia.
      * intros k q Hq. rewrite lookup_insert in Hq. case_decide as Hk.
        { injection Hq as <-. by rewrite lookup_insert_eq. }
        by do 2 apply is_Some_insert; apply (Hall k).
  - simpl. eexists. split; [reflexivity |]. simpl.
    split; [| split; [reflexivity | split; [| split; [reflexivity | split; [reflexivity | split; [reflexivity | split]]]]]].
    + intros p0 tk0 [=].
    + exists (next_ticker h). split; [exact Hfresh | split; [reflexivity |]].
      by rewrite lookup_insert_eq.
    + intros q _ Hq'. rewrite lookup_insert_eq in Hq'.
      rewrite lookup_insert_ne by congruence. reflexivity.
    + split; simpl.
      * intros q tq Hq. rewrite lookup_insert in Hq. case_decide as Hqn; [subst; lia |].
        apply Hlt in Hq. lia.
      * intros k q Hq. rewrite lookup_insert in Hq. case_decide as Hk.
        { injection Hq as <-. by rewrite lookup_insert_eq. }
        by apply is_Some_insert; apply (Hall k).
Qed.

Lemma set_timer_rearms_witness :
  0 < Second /\ wf Initialize /\
  exists h', sendTimer_step (CSetTimer (mkTimer Second TimerSendInterval "AA:BB:CC:DD:EE:FF"))
               Initialize = Some (tt, h').
Proof.
  split; [reflexivity | split; [exact wf_Initialize |]].
  destruct (set_timer_rearms Initialize "AA:BB:CC:DD:EE:FF" Second
              ltac:(reflexivity) wf_Initialize) as [h' [H _]].
  exists h'. exact H.
Defined.

(** C3 as stated fails for [d = 0]: [time.NewTicker(0)] panics, so the
    Timer Owner installs no ticker (after having recorded the interval). *)
Lemma set_timer_zero_panics :
  sendTimer_step (CSetTimer (mkTimer 0 TimerSendInterval "AA:BB:CC:DD:EE:FF"))
                 Initialize = None /\
  ~ exists h', sendTimer_step (CSetTimer (mkTimer 0 TimerSendInterval "AA:BB:CC:DD:EE:FF"))
                 Initialize = Some (tt, h').
Proof. split; [reflexivity | intros [h' H]; discriminate H]. Qed.

(** A control message touches the registry entry of its own device only. *)
Lemma sendTimer_step_frame (c : Ctrl) (h h1 : hermes) (u : unit) (k : string) :
  sendTimer_step c h = Some (u, h1) -> k <> ctrl_mac c -> entry_of h1 k = entry_of h k.
Proof.
  intros H Hk. unfold entry_of.
  destruct c as [t | m]; simpl in Hk;
    unfold sendTimer_step, bind, get, modify, NewTicker, Stop, panic, ret in H; simpl in H.
  - repeat step_case; simplify_eq/=; try reflexivity;
      rewrite ?lookup_insert_ne by congruence; reflexivity.
  - repeat step_case. simplify_eq/=.
    rewrite ?lookup_insert_ne by congruence. reflexivity.
Qed.

(** A TimerSet of another kind is ignored. *)
Lemma sendTimer_step_other_kind (t : Timer) (h h1 : hermes) (u : unit) :
  timerType t <> TimerSendInterval ->
  sendTimer_step (CSetTimer t) h = Some (u, h1) -> h1 = h.
Proof.
  intros Hty H. unfold sendTimer_step in H.
  destruct (String.eqb_spec (timerType t) TimerSendInterval); [contradiction |].
  injection H as _ <-. reflexivity.
Qed.

Lemma GetCanSend_entry (m k : string) (h h1 : hermes) (b : bool) :
  GetCanSend m h = Some (b, h1) -> entry_of h1 k = entry_of h k.
Proof.
  intros H. unfold GetCanSend, bind, get, modify, deref, ret in H. simpl in H.
  repeat step_case; simplify_eq/=; reflexivity.
Qed.

Lemma step_keeps_absent (e : Event) (m : string) (h h1 : hermes) (u : unit) :
  step e h = Some (u, h1) -> no_set_for m [e] ->
  entry_of h m = (None, None) -> entry_of h1 m = (None, None).
Proof.
  intros H Hno Hab. destruct e as [c | m' | p]; simpl in H.
  - destruct (String.eqb_spec (ctrl_mac c) m) as [Em | Hne].
    + destruct c as [t | m'']; simpl in Em.
      * assert (Hty : timerType t <> TimerSendInterval) by (apply Hno; [left |]; done).
        rewrite (sendTimer_step_other_kind t h h1 u Hty H). exact Hab.
      * subst m''. unfold entry_of in Hab. injection Hab as Hst _.
        unfold sendTimer_step, bind, get, modify in H. simpl in H.
        rewrite Hst in H. discriminate H.
    + rewrite (sendTimer_step_frame c h h1 u m H); [exact Hab | congruence].
  - unfold bind in H. destruct (GetCanSend m' h) as [[b h2] |] eqn:E; [| discriminate H].
    unfold ret in H. injection H as _ <-.
    rewrite (GetCanSend_entry m' m h h2 b E). exact Hab.
  - unfold modify in H. injection H as _ <-. unfold tick.
    destruct (tickers h !! p) as [tk |]; [destruct (tk_stopped tk) |]; exact Hab.
Qed.

Lemma run_keeps_absent (evs : list Event) (m : string) (h h1 : hermes) (u : unit) :
  run evs h = Some (u, h1) -> no_set_for m evs ->
  entry_of h m = (None, None) -> entry_of h1 m = (None, None).
Proof.
  revert h. induction evs as [| e evs IH]; intros h H Hno Hab; simpl in H.
  - injection H as _ <-. exact Hab.
  - unfold bind in H. destruct (step e h) as [[v h2] |] eqn:E; [| discriminate H].
    apply (IH h2 H).
    + intros t Ht. apply Hno. right. exact Ht.
    + apply (step_keeps_absent e m h h2 v E); [| exact Hab].
      intros t Ht. apply Hno. destruct Ht as [-> | []]. left. reflexivity.
Qed.

(** C6: a device no [TimerSet] has targeted is let through by [GetCanSend]
    (which leaves the state as it is) and has the one-second default
    interval, in every state reached from [Initialize]. *)
Theorem no_timerset_defaults (evs : list Event) (m : string) (h : hermes)
  (Hrun : run evs Initialize = Some (tt, h)) (Hno : no_set_for m evs) :
  GetCanSend m h = Some (true, h) /\ GetCurrentSendInterval h m = Second * 1.
Proof.
  pose proof (run_keeps_absent evs m Initialize h tt Hrun Hno eq_refl) as Hab.
  unfold entry_of in Hab. injection Hab as Hst Hcsi. split.
  - unfold GetCanSend, bind, get. simpl. rewrite Hst. reflexivity.
  - unfold GetCurrentSendInterval, read_interval. rewrite Hcsi. reflexivity.
Qed.

Lemma no_timerset_defaults_witness :
  exists h,
    run sample_run Initialize = Some (tt, h) /\
    GetCanSend "AA:BB:CC:DD:EE:FB" h = Some (true, h) /\
    GetCurrentSendInterval h "AA:BB:CC:DD:EE:FB" = Second * 1.
Proof.
  destruct (run sample_run Initialize) as [[[] h] |] eqn:E;
    [| vm_compute in E; discriminate E].
  exists h. split; [reflexivity |].
  apply (no_timerset_defaults sample_run "AA:BB:CC:DD:EE:FB" h E).
  intros t Ht Hm. simpl in Ht.
  destruct Ht as [Ht | [Ht | [Ht | [Ht | []]]]]; try discriminate Ht.
  injection Ht as <-. discriminate Hm.
Defined.

Lemma mac_groups_length (n : nat) (s : string) :
  mac_groups n s = true -> String.length s = (3 * n - 1)%nat.
Proof.
  revert s. induction n as [| [| n] IH]; intros s H.
  - destruct s; discriminate H.
  - destruct s as [| a [| b [| c rest]]]; simpl in H; try discriminate H;
      [reflexivity | rewrite andb_false_r in H; discriminate H].
  - destruct s as [| a [| b [| c rest]]]; try discriminate H.
    simpl in H. apply andb_true_iff in H as [_ H].
    apply IH in H. simpl. rewrite H. lia.
Qed.

(** C7: [parseTopicMac] returns the one slash-separated segment of MAC
    shape when there is exactly one, the empty string when there is none,
    and otherwise nothing but such a segment; a MAC-shaped segment is
    17 characters long (so a five-group one is not), and the examples of
    [TestParseMac] hold, with the identifier at offsets 2 and 1. *)
Theorem parseTopicMac_shape :
  (forall topic seg, In seg (split_slash topic) -> is_mac seg = true ->
     (forall seg', In seg' (split_slash topic) -> is_mac seg' = true -> seg' = seg) ->
     parseTopicMac topic = seg) /\
  (forall topic, (forall seg, In seg (split_slash topic) -> is_mac seg = false) ->
     parseTopicMac topic = "") /\
  (forall topic, parseTopicMac topic = "" \/
     (In (parseTopicMac topic) (split_slash topic) /\ is_mac (parseTopicMac topic) = true)) /\
  (forall s, is_mac s = true -> String.length s = 17%nat) /\
  parseTopicMac "hermes/global/AA:BB:CC:DD:EE:FF/model/receive" = "AA:BB:CC:DD:EE:FF" /\
  parseTopicMac "hermes/AA:BB:CC:DD:EE:FF/global/receive/+" = "AA:BB:CC:DD:EE:FF" /\
  parseTopicMac "hermes/AA:BB:CC:DD:EE/global/send" = "" /\
  parseTopicMac "randomlongtext:randomverylongtext/global/send" = "" /\
  parseTopicMac "" = "".
Proof.
  split; [| split; [| split; [| split]]].
  - intros topic seg Hin Hmac Huniq. unfold parseTopicMac.
    destruct (List.find is_mac (split_slash topic)) as [x |] eqn:E.
    + apply find_some in E as [Hx Hxm]. exact (Huniq x Hx Hxm).
    + pose proof (find_none _ _ E seg Hin) as F. congruence.
  - intros topic Hnone. unfold parseTopicMac.
    destruct (List.find is_mac (split_slash topic)) as [x |] eqn:E; [| reflexivity].
    apply find_some in E as [Hx Hxm]. rewrite (Hnone x Hx) in Hxm. discriminate Hxm.
  - intros topic. unfold parseTopicMac.
    destruct (List.find is_mac (split_slash topic)) as [x |] eqn:E; [| by left].
    right. exact (find_some _ _ E).
  - intros s H. apply mac_groups_length in H. exact H.
  - repeat split; reflexivity.
Qed.

(** * Further properties of the code *)

Lemma land_one_mod2 (x : Z) : Z.land x 1 = x mod 2.
Proof. change 1 with (Z.ones 1). rewrite Z.land_ones by lia. reflexivity. Qed.

Lemma bits_value_shift (n : Z) (len k : nat) :
  bits_value (map (fun i => Z.land (Z.shiftr n (Z.of_nat i)) 1) (seq k len)) =
  Z.shiftr n (Z.of_nat k) mod 2 ^ Z.of_nat len.
Proof.
  revert k. induction len as [| len IH]; intros k.
  - simpl. rewrite Z.mod_1_r. reflexivity.
  - cbn [seq map bits_value]. rewrite IH.
    replace (Z.of_nat (S k)) with (Z.of_nat k + 1) by lia.
    rewrite <- Z.shiftr_shiftr by lia.
    set (x := Z.shiftr n (Z.of_nat k)).
    rewrite Z.shiftr_div_pow2 by lia.
    rewrite land_one_mod2.
    replace (2 ^ Z.of_nat (S len)) with (2 ^ 1 * 2 ^ Z.of_nat len)
      by (rewrite <- Z.pow_add_r by lia; f_equal; lia).
    rewrite Z.rem_mul_r by lia. reflexivity.
Qed.

(** [bin] writes exactly [num_digits] entries, each 0 or 1, whose binary
    value is [n] modulo [2 ^ num_digits] (two's complement for negative
    [n]); a negative [num_digits] panics in [make]. *)
Theorem bin_roundtrip (n d : Z) :
  (d < 0 -> bin n d = None) /\
  (0 <= d -> exists l, bin n d = Some l /\ Z.of_nat (length l) = d /\
     Forall (fun b => b = 0 \/ b = 1) l /\ bits_value l = n mod 2 ^ d).
Proof.
  unfold bin. split; intros Hd.
  - apply Z.ltb_lt in Hd. rewrite Hd. reflexivity.
  - assert (Hd' : Z.ltb d 0 = false) by (apply Z.ltb_ge; lia). rewrite Hd'.
    eexists. split; [reflexivity |]. split; [| split].
    + rewrite length_map, length_seq. lia.
    + apply Forall_forall. intros b Hb. apply list_elem_of_In, in_map_iff in Hb as [i [<- _]].
      rewrite land_one_mod2.
      pose proof (Z.mod_pos_bound (Z.shiftr n (Z.of_nat i)) 2 ltac:(lia)). lia.
    + rewrite bits_value_shift. simpl. rewrite Z2Nat.id by lia. reflexivity.
Qed.

(** [fizzBuzz]: 3 for multiples of both 3 and 5, 2 for other multiples of
    5, 1 for other multiples of 3, 0 otherwise (negative numbers too). *)
Theorem fizzBuzz_classes (n : Z) :
  (fizzBuzz n = 3 <-> (3 | n) /\ (5 | n)) /\
  (fizzBuzz n = 2 <-> (5 | n) /\ ~ (3 | n)) /\
  (fizzBuzz n = 1 <-> (3 | n) /\ ~ (5 | n)) /\
  (fizzBuzz n = 0 <-> ~ (3 | n) /\ ~ (5 | n)).
Proof.
  assert (E15 : Z.rem n 15 = 0 <-> (3 | n) /\ (5 | n)).
  { rewrite Z.rem_mod_eq_0, <- !Z.mod_divide by lia.
    split; [intros H | intros [H3 H5]]; Z.div_mod_to_equations; lia. }
  assert (E5 : Z.rem n 5 = 0 <-> (5 | n)) by (apply Z.rem_divide; lia).
  assert (E3 : Z.rem n 3 = 0 <-> (3 | n)) by (apply Z.rem_divide; lia).
  unfold fizzBuzz.
  destruct (Z.eqb_spec (Z.rem n 15) 0) as [H15 | H15];
  [| destruct (Z.eqb_spec (Z.rem n 5) 0) as [H5 | H5];
     [| destruct (Z.eqb_spec (Z.rem n 3) 0) as [H3 | H3]]];
  rewrite ?E15, ?E5, ?E3 in *; repeat split; intros; try discriminate; try tauto.
Qed.

Lemma string_append_cancel_l (p a b : string) :
  String.append p a = String.append p b -> a = b.
Proof. induction p as [| c p IH]; simpl; [done | intros E; injection E; exact IH]. Qed.

Lemma string_append_cancel_r (a b s : string) :
  String.append a s = String.append b s -> a = b.
Proof.
  revert b. induction a as [| c a IH]; intros b E; destruct b as [| c' b]; simpl in E.
  - reflexivity.
  - apply (f_equal String.length) in E. simpl in E.
    rewrite !string_length_append in E. simpl in E. lia.
  - apply (f_equal String.length) in E. simpl in E.
    rewrite !string_length_append in E. simpl in E. lia.
  - injection E as -> E. f_equal. exact (IH b E).
Qed.

(** [saveModel] writes to a file named after the device, and two devices
    never share a model file. *)
Theorem saveModel_names_distinct (model : list Byte.byte) (m1 m2 : string) :
  saveModel model m1 = [WriteFile (modelName m1) model] /\
  (modelName m1 = modelName m2 -> m1 = m2).
Proof.
  split; [reflexivity |]. unfold modelName. intros E.
  apply string_append_cancel_l, string_append_cancel_l in E.
  exact (string_append_cancel_r _ _ _ E).
Qed.

Lemma set_nonpos_None (h : hermes) (m : string) (d : Duration) :
  d <= 0 -> sendTimer_step (CSetTimer (mkTimer d TimerSendInterval m)) h = None.
Proof.
  intros Hd. assert (Hd' : Z.leb d 0 = true) by (apply Z.leb_le; exact Hd).
  unfold sendTimer_step, bind, get, modify, NewTicker, Stop, ret. simpl.
  destruct (sendTicker h !! m) as [p |]; simpl;
    [destruct (tickers h !! p) as [tk |]; simpl |]; rewrite ?Hd'; reflexivity.
Qed.

Lemma bind_None {A B} (m : M A) (k : A -> M B) (h : hermes) :
  m h = None -> bind m k h = None.
Proof. unfold bind. intros ->. reflexivity. Qed.

(** Any [TimerSet] of kind [TimerSendInterval] with a non-positive
    duration makes the Timer Owner panic, whatever the state. *)
Theorem set_timer_nonpos_panics (h : hermes) (m : string) (d : Duration)
  (Hd : d <= 0) :
  sendTimer_step (CSetTimer (mkTimer d TimerSendInterval m)) h = None.
Proof. exact (set_nonpos_None h m d Hd). Qed.

Lemma set_timer_nonpos_panics_witness :
  sendTimer_step (CSetTimer (mkTimer (-Second) TimerSendInterval "AA:BB:CC:DD:EE:FF"))
                 Initialize = None.
Proof. apply set_timer_nonpos_panics. discriminate. Defined.

(** [HandleReceiveInterval] only rejects [send_interval = 0]: a value whose
    minute count wraps to a non-positive [time.Duration] (any negative
    value down to -153722867, or an overflowing one such as 153722868)
    passes the check, and the Timer Owner panics on the [TimerSet]. *)
Theorem interval_nonpos_duration_panics
  (Unmarshal : list Byte.byte -> SendIntervalPayload) (msg : Message) (h : hermes)
  (Hnz : SendInterval (Unmarshal (msg_payload msg)) <> 0)
  (Hwrap : wrap64 (Minute * SendInterval (Unmarshal (msg_payload msg))) <= 0)
  (Hmac : parseTopicMac (msg_topic msg) <> "") :
  timer_sends (snd (HandleReceiveInterval Unmarshal msg h)) =
    [mkTimer (wrap64 (Minute * SendInterval (Unmarshal (msg_payload msg))))
             TimerSendInterval (parseTopicMac (msg_topic msg))] /\
  sys_step Unmarshal (SInterval msg) h = None.
Proof.
  assert (E : HandleReceiveInterval Unmarshal msg h =
    (h, [SendSetTimer (mkTimer (wrap64 (Minute * SendInterval (Unmarshal (msg_payload msg))))
                               TimerSendInterval (parseTopicMac (msg_topic msg)))])).
  { unfold HandleReceiveInterval.
    destruct (Z.eqb_spec (SendInterval (Unmarshal (msg_payload msg))) 0); [contradiction |].
    destruct (String.eqb_spec (parseTopicMac (msg_topic msg)) ""); [contradiction |].
    reflexivity. }
  split; [rewrite E; reflexivity |].
  unfold sys_step. change (handle_then_deliver (HandleReceiveInterval Unmarshal msg h) h = None).
  unfold handle_then_deliver. rewrite E. cbn [fst snd deliver].
  apply bind_None, set_nonpos_None. exact Hwrap.
Qed.

Lemma interval_nonpos_duration_panics_witness :
  sys_step (fun _ => mkSendIntervalPayload "AA:BB:CC:DD:EE:FF" 153722868)
    (SInterval (mkMessage "hermes/global/AA:BB:CC:DD:EE:FF/interval/receive" []))
    Initialize = None.
Proof.
  apply (interval_nonpos_duration_panics
           (fun _ => mkSendIntervalPayload "AA:BB:CC:DD:EE:FF" 153722868)
           (mkMessage "hermes/global/AA:BB:CC:DD:EE:FF/interval/receive" []) Initialize).
  - discriminate.
  - vm_compute. discriminate.
  - vm_compute. discriminate.
Defined.

(** ** Exact effect of the Timer Owner's two branches *)

Lemma set_step_ok (h : hermes) (m : string) (d : Duration) :
  wf h -> 0 < d ->
  sendTimer_step (CSetTimer (mkTimer d TimerSendInterval m)) h = Some (tt, after_set h m d).
Proof.
  intros [_ Hal] Hd. assert (Hd' : Z.leb d 0 = false) by (apply Z.leb_gt; lia).
  unfold sendTimer_step, bind, get, modify, NewTicker, Stop, ret, after_set, stop_old.
  simpl. destruct (sendTicker h !! m) as [p |] eqn:Hp; simpl.
  - destruct (Hal m p Hp) as [tk Htk]. rewrite Htk. simpl. rewrite Hd'. reflexivity.
  - rewrite Hd'. reflexivity.
Qed.

Lemma reset_step_ok (h : hermes) (m : string) (p : positive) :
  wf h -> sendTicker h !! m = Some p -> 0 < read_interval h m ->
  sendTimer_step (CResetTimer m) h = Some (tt, after_reset h m).
Proof.
  intros [_ Hal] Hp Hd. assert (Hd' : Z.leb (read_interval h m) 0 = false) by (apply Z.leb_gt; lia).
  destruct (Hal m p Hp) as [tk Htk].
  unfold sendTimer_step, bind, get, modify, NewTicker, Stop, ret, after_reset, stop_old.
  simpl. rewrite Hp. simpl. rewrite Htk. simpl. unfold read_interval in *. simpl. rewrite Hd'. reflexivity.
Qed.

(** ** The registry invariant is kept by every step *)

Lemma stop_old_Some (h : hermes) (m : string) (q : positive) (tk : Ticker) :
  stop_old h m !! q = Some tk -> is_Some (tickers h !! q).
Proof.
  unfold stop_old. destruct (sendTicker h !! m) as [p |];
    [destruct (tickers h !! p) as [tk0 |] eqn:E |]; intros H; try (eexists; exact H).
  rewrite lookup_insert_Some in H.
  destruct H as [[<- _] | [_ H]]; [eexists; exact E | eexists; exact H].
Qed.

Lemma stop_old_is_Some (h : hermes) (m : string) (q : positive) :
  is_Some (tickers h !! q) -> is_Some (stop_old h m !! q).
Proof.
  unfold stop_old. destruct (sendTicker h !! m) as [p |];
    [destruct (tickers h !! p) as [tk0 |] |]; intros H; try exact H.
  apply is_Some_insert. exact H.
Qed.

Lemma inv_Initialize : inv Initialize.
Proof.
  split; [exact wf_Initialize | split]; simpl;
    [intros k d H | intros k p H]; rewrite lookup_empty in H; discriminate H.
Qed.

Lemma inv_after_set (h : hermes) (m : string) (d : Duration) :
  inv h -> 0 < d -> inv (after_set h m d).
Proof.
  intros (Hwf & Hpos & Hent) Hd. destruct Hwf as [Hlt Hal].
  unfold inv, wf, after_set; simpl. split; [split | split].
  - intros p tk H. rewrite lookup_insert_Some in H.
    destruct H as [[<- _] | [_ H]]; [lia |].
    apply stop_old_Some in H as [tk0 H]. apply Hlt in H. lia.
  - intros k p H. rewrite lookup_insert_Some in H. rewrite lookup_insert_is_Some'.
    destruct H as [[_ <-] | [_ H]]; [left; reflexivity |].
    right. apply stop_old_is_Some, (Hal k p H).
  - intros k d' H. rewrite lookup_insert_Some in H.
    destruct H as [[_ <-] | [_ H]]; [exact Hd | exact (Hpos k d' H)].
  - intros k p H. rewrite lookup_insert_Some in H. rewrite !lookup_insert_is_Some'.
    destruct H as [[-> _] | [_ H]]; [split; left; reflexivity |].
    destruct (Hent k p H). split; right; assumption.
Qed.

Lemma inv_after_reset (h : hermes) (m : string) :
  inv h -> is_Some (sendTicker h !! m) -> inv (after_reset h m).
Proof.
  intros (Hwf & Hpos & Hent) [p0 Hp0]. destruct Hwf as [Hlt Hal].
  unfold inv, wf, after_reset; simpl. split; [split | split].
  - intros p tk H. rewrite lookup_insert_Some in H.
    destruct H as [[<- _] | [_ H]]; [lia |].
    apply stop_old_Some in H as [tk0 H]. apply Hlt in H. lia.
  - intros k p H. rewrite lookup_insert_Some in H. rewrite lookup_insert_is_Some'.
    destruct H as [[_ <-] | [_ H]]; [left; reflexivity |].
    right. apply stop_old_is_Some, (Hal k p H).
  - exact Hpos.
  - intros k p H. rewrite lookup_insert_Some in H. rewrite lookup_insert_is_Some'.
    destruct H as [[<- _] | [_ H]].
    + destruct (Hent m p0 Hp0). split; [assumption | left; reflexivity].
    + destruct (Hent k p H). split; [assumption | right; assumption].
Qed.

(** A step that leaves intervals, ticker pointers and the allocation
    pointer alone, keeps the allocated tickers and the [canSend] keys,
    keeps the invariant. *)
Lemma inv_frame (h h' : hermes) :
  inv h ->
  currentSendInterval h' = currentSendInterval h ->
  sendTicker h' = sendTicker h ->
  next_ticker h' = next_ticker h ->
  (forall k, is_Some (canSend h !! k) -> is_Some (canSend h' !! k)) ->
  (forall q, is_Some (tickers h' !! q) -> is_Some (tickers h !! q)) ->
  (forall q, is_Some (tickers h !! q) -> is_Some (tickers h' !! q)) ->
  inv h'.
Proof.
  intros ((Hlt & Hal) & Hpos & Hent) Ec Es En Hc Ht1 Ht2. split; [split | split].
  - intros p tk H. rewrite En. destruct (Ht1 p (ex_intro _ tk H)) as [tk0 H0].
    exact (Hlt p tk0 H0).
  - intros k p H. rewrite Es in H. exact (Ht2 p (Hal k p H)).
  - intros k d H. rewrite Ec in H. exact (Hpos k d H).
  - intros k p H. rewrite Es in H. rewrite Ec. destruct (Hent k p H).
    split; [assumption | apply Hc; assumption].
Qed.

Lemma insert_is_Some_back (t : gmap positive Ticker) (p q : positive) (tk tk0 : Ticker) :
  t !! p = Some tk0 -> is_Some (<[p := tk]> t !! q) -> is_Some (t !! q).
Proof.
  intros Hp H. rewrite lookup_insert_is_Some' in H.
  destruct H as [<- | H]; [eexists; exact Hp | exact H].
Qed.

Lemma tick_inv (p : positive) (h : hermes) : inv h -> inv (tick p h).
Proof.
  intros Hinv. unfold tick. destruct (tickers h !! p) as [tk |] eqn:Htk; [| exact Hinv].
  destruct (tk_stopped tk); [exact Hinv |].
  apply (inv_frame h); [exact Hinv | reflexivity | reflexivity | reflexivity | idtac ..]; simpl; intros q;
    first [apply (insert_is_Some_back _ _ _ _ tk Htk) | apply is_Some_insert | tauto].
Qed.

Lemma GetCanSend_inv (m : string) (h h' : hermes) (b : bool) :
  inv h -> GetCanSend m h = Some (b, h') -> inv h'.
Proof.
  intros Hinv H. unfold GetCanSend, bind, get, modify, deref, ret in H. simpl in H.
  destruct (sendTicker h !! m) as [p |] eqn:Hp; [| injection H as _ <-; exact Hinv].
  destruct (Nat.eqb _ 0); [injection H as _ <-; exact Hinv |].
  destruct (tickers h !! p) as [tk |] eqn:Htk; [| discriminate H].
  destruct (tk_pending tk); injection H as _ <-.
  - apply (inv_frame h); [exact Hinv | reflexivity | reflexivity | reflexivity | idtac ..]; simpl; intros q;
      first [apply (insert_is_Some_back _ _ _ _ tk Htk) | apply is_Some_insert
            | rewrite lookup_insert_is_Some'; intros Hq; right; exact Hq].
  - apply (inv_frame h); [exact Hinv | reflexivity | reflexivity | reflexivity | idtac ..]; simpl; intros q;
      first [tauto | rewrite lookup_insert_is_Some'; intros Hq; right; exact Hq].
Qed.

Lemma sendTimer_step_inv (c : Ctrl) (h h' : hermes) (u : unit) :
  inv h -> sendTimer_step c h = Some (u, h') -> inv h'.
Proof.
  intros Hinv H. destruct c as [[d ty m] | m].
  - destruct (String.eqb_spec ty TimerSendInterval) as [-> | Hty].
    + destruct (Z.ltb_spec 0 d) as [Hd | Hd].
      * rewrite (set_step_ok h m d (proj1 Hinv) Hd) in H. injection H as _ <-.
        exact (inv_after_set h m d Hinv Hd).
      * rewrite (set_nonpos_None h m d Hd) in H. discriminate H.
    + rewrite (sendTimer_step_other_kind (mkTimer d ty m) h h' u Hty H). exact Hinv.
  - destruct (sendTicker h !! m) as [p |] eqn:Hp.
    + destruct Hinv as (Hwf & Hpos & Hent) eqn:Hinv'.
      destruct (Hent m p Hp) as [[d Hd] _].
      assert (Hr : 0 < read_interval h m)
        by (unfold read_interval; rewrite Hd; exact (Hpos m d Hd)).
      rewrite (reset_step_ok h m p Hwf Hp Hr) in H. injection H as _ <-.
      apply inv_after_reset; [exact Hinv | eexists; exact Hp].
    + unfold sendTimer_step, bind, get, modify, Stop, panic in H. simpl in H.
      rewrite Hp in H. discriminate H.
Qed.

Lemma deliver_inv (es : list Effect) (h h' : hermes) (u : unit) :
  inv h -> deliver es h = Some (u, h') -> inv h'.
Proof.
  revert h. induction es as [| e es IH]; intros h Hinv H; cbn [deliver] in H.
  - injection H as _ <-. exact Hinv.
  - destruct e as [n data | t | m | topic q r pl]; try exact (IH h Hinv H);
      unfold bind in H; destruct (sendTimer_step _ h) as [[u1 h1] |] eqn:E;
      try discriminate H; exact (IH h1 (sendTimer_step_inv _ h h1 u1 Hinv E) H).
Qed.

Lemma sys_step_inv (Unmarshal : list Byte.byte -> SendIntervalPayload)
  (e : SysEvent) (h h' : hermes) (u : unit) :
  inv h -> sys_step Unmarshal e h = Some (u, h') -> inv h'.
Proof.
  intros Hinv H. destruct e as [msg | msg | m | m d | m | p]; cbn [sys_step] in H.
  - unfold bind, get, handle_then_deliver in H. cbv beta iota in H.
    exact (deliver_inv _ (fst (HandleReceiveModel msg h)) h' u Hinv H).
  - unfold bind, get, handle_then_deliver in H. cbv beta iota in H.
    assert (E : fst (HandleReceiveInterval Unmarshal msg h) = h)
      by (unfold HandleReceiveInterval; destruct (_ || _); reflexivity).
    rewrite E in H. exact (deliver_inv _ h h' u Hinv H).
  - exact (deliver_inv _ h h' u Hinv H).
  - exact (deliver_inv _ h h' u Hinv H).
  - unfold bind in H. destruct (GetCanSend m h) as [[b h1] |] eqn:E; [| discriminate H].
    injection H as _ <-. exact (GetCanSend_inv m h h1 b Hinv E).
  - unfold modify in H. injection H as _ <-. exact (tick_inv p h Hinv).
Qed.

Lemma sys_run_inv (Unmarshal : list Byte.byte -> SendIntervalPayload)
  (evs : list SysEvent) (h h' : hermes) (u : unit) :
  inv h -> sys_run Unmarshal evs h = Some (u, h') -> inv h'.
Proof.
  revert h. induction evs as [| e evs IH]; intros h Hinv H; cbn [sys_run] in H.
  - injection H as _ <-. exact Hinv.
  - unfold bind in H. destruct (sys_step Unmarshal e h) as [[u1 h1] |] eqn:E;
      [| discriminate H].
    exact (IH h1 (sys_step_inv Unmarshal e h h1 u1 Hinv E) H).
Qed.

(** ** [GetCanSend] on a device with a ticker *)

Lemma GetCanSend_ticker (h : hermes) (m : string) (p : positive) (tk : Ticker) :
  sendTicker h !! m = Some p -> tickers h !! p = Some tk -> is_Some (canSend h !! m) ->
  GetCanSend m h = Some (tk_pending tk,
    set_canSend (<[m := tk_pending tk]> (canSend h))
      (if tk_pending tk
       then set_heap (<[p := mkTicker (tk_period tk) (tk_stopped tk) false]> (tickers h))
                     (next_ticker h) h
       else h)).
Proof.
  intros Hp Htk Hc. pose proof (map_size_ne_0_lookup_2 _ _ Hc) as Hs.
  unfold GetCanSend, bind, get, modify, deref, ret. simpl. rewrite Hp.
  destruct (Nat.eqb_spec (size (canSend h)) 0) as [E | _]; [contradiction |].
  rewrite Htk. destruct (tk_pending tk); simpl; unfold read_canSend; simpl;
    rewrite lookup_insert_eq; reflexivity.
Qed.

Lemma after_set_GetCanSend (h : hermes) (m : string) (d : Duration) :
  GetCanSend m (after_set h m d) =
    Some (false, set_canSend (<[m := false]> (canSend (after_set h m d))) (after_set h m d)).
Proof.
  apply (GetCanSend_ticker _ m (next_ticker h) (mkTicker d false false)); simpl;
    [apply lookup_insert_eq | apply lookup_insert_eq |].
  rewrite lookup_insert_eq. eexists. reflexivity.
Qed.

Lemma deliver_set_ok (h : hermes) (m : string) (d : Duration) :
  wf h -> 0 < d ->
  deliver [SendSetTimer (mkTimer d TimerSendInterval m)] h = Some (tt, after_set h m d).
Proof.
  intros Hwf Hd. cbn [deliver]. unfold bind. rewrite (set_step_ok h m d Hwf Hd).
  reflexivity.
Qed.

Lemma GetCurrentSendInterval_after_set (h : hermes) (m k : string) (d : Duration) :
  0 < d ->
  GetCurrentSendInterval (after_set h m d) k =
    if String.eqb k m then d else GetCurrentSendInterval h k.
Proof.
  intros Hd. unfold GetCurrentSendInterval, read_interval, after_set. simpl.
  destruct (String.eqb_spec k m) as [-> | Hne].
  - rewrite lookup_insert_eq. simpl. destruct (Z.eqb_spec d 0); [lia | reflexivity].
  - rewrite lookup_insert_ne by congruence. reflexivity.
Qed.

Lemma wrap64_small (z : Z) : - 2 ^ 63 <= z < 2 ^ 63 -> wrap64 z = z.
Proof.
  intros Hz. unfold wrap64. rewrite Z.mod_small; [lia |].
  change (2 ^ 64) with (2 ^ 63 + 2 ^ 63). lia.
Qed.

(** ** [initialModel] along a run *)

Lemma sendTimer_step_initialModel (c : Ctrl) (h h' : hermes) (u : unit) :
  sendTimer_step c h = Some (u, h') -> initialModel h' = initialModel h.
Proof.
  intros H. destruct c as [t | m];
    unfold sendTimer_step, bind, get, modify, NewTicker, Stop, panic, ret in H; simpl in H.
  - repeat step_case; simplify_eq/=; reflexivity.
  - repeat step_case. simplify_eq/=. reflexivity.
Qed.

Lemma deliver_initialModel (es : list Effect) (h h' : hermes) (u : unit) :
  deliver es h = Some (u, h') -> initialModel h' = initialModel h.
Proof.
  revert h. induction es as [| e es IH]; intros h H; cbn [deliver] in H.
  - injection H as _ <-. reflexivity.
  - destruct e as [n data | t | m | topic q r pl]; try exact (IH h H);
      unfold bind in H; destruct (sendTimer_step _ h) as [[u1 h1] |] eqn:E;
      try discriminate H; rewrite (IH h1 H); exact (sendTimer_step_initialModel _ h h1 u1 E).
Qed.

Lemma GetCanSend_initialModel (m : string) (h h' : hermes) (b : bool) :
  GetCanSend m h = Some (b, h') -> initialModel h' = initialModel h.
Proof.
  intros H. unfold GetCanSend, bind, get, modify, deref, ret in H. simpl in H.
  repeat step_case; simplify_eq/=; reflexivity.
Qed.

Lemma sys_step_initialModel (Unmarshal : list Byte.byte -> SendIntervalPayload)
  (e : SysEvent) (h h' : hermes) (u : unit) :
  sys_step Unmarshal e h = Some (u, h') ->
  initialModel h' = initialModel h && negb (is_model_event e).
Proof.
  intros H. destruct e as [msg | msg | m | m d | m | p]; cbn [sys_step is_model_event] in H |- *.
  - unfold bind, get, handle_then_deliver in H. cbv beta iota in H.
    rewrite (deliver_initialModel _ _ h' u H), andb_false_r. reflexivity.
  - unfold bind, get, handle_then_deliver in H. cbv beta iota in H.
    assert (E : fst (HandleReceiveInterval Unmarshal msg h) = h)
      by (unfold HandleReceiveInterval; destruct (_ || _); reflexivity).
    rewrite E in H. rewrite (deliver_initialModel _ h h' u H), andb_true_r. reflexivity.
  - rewrite (deliver_initialModel _ h h' u H), andb_true_r. reflexivity.
  - rewrite (deliver_initialModel _ h h' u H), andb_true_r. reflexivity.
  - unfold bind in H. destruct (GetCanSend m h) as [[b h1] |] eqn:E; [| discriminate H].
    injection H as _ <-. rewrite (GetCanSend_initialModel m h h1 b E), andb_true_r.
    reflexivity.
  - unfold modify in H. injection H as _ <-. rewrite andb_true_r. unfold tick.
    destruct (tickers h !! p) as [tk |]; [destruct (tk_stopped tk) |]; reflexivity.
Qed.

Lemma sys_run_initialModel (Unmarshal : list Byte.byte -> SendIntervalPayload)
  (evs : list SysEvent) (h h' : hermes) (u : unit) :
  sys_run Unmarshal evs h = Some (u, h') ->
  initialModel h' = initialModel h && negb (existsb is_model_event evs).
Proof.
  revert h. induction evs as [| e evs IH]; intros h H; cbn [sys_run existsb] in H |- *.
  - injection H as _ <-. rewrite andb_true_r. reflexivity.
  - unfold bind in H. destruct (sys_step Unmarshal e h) as [[u1 h1] |] eqn:E;
      [| discriminate H].
    rewrite (IH h1 H), (sys_step_initialModel Unmarshal e h h1 u1 E).
    rewrite negb_orb. destruct (initialModel h), (is_model_event e); reflexivity.
Qed.

(** ** Suffixes of strings *)

Lemma string_suffix (a s b t : string) :
  String.append a s = String.append b t -> (String.length s <= String.length t)%nat ->
  exists c, t = String.append c s.
Proof.
  revert b. induction a as [| x a IH]; intros b E Hl.
  - destruct b as [| y b].
    + exists EmptyString. exact (eq_sym E).
    + exfalso. apply (f_equal String.length) in E.
      rewrite !string_length_append in E. simpl in E. lia.
  - destruct b as [| y b].
    + exists (String x a). exact (eq_sym E).
    + change (String x (String.append a s) = String y (String.append b t)) in E.
      injection E as _ E. exact (IH b E Hl).
Qed.

(** ** Reachable states of the coordinator *)

(** In every state reachable from [Initialize], [GetCurrentSendInterval]
    reports a positive duration for every device. *)
Theorem reachable_interval_positive (Unmarshal : list Byte.byte -> SendIntervalPayload)
  (evs : list SysEvent) (h : hermes) (m : string)
  (Hrun : sys_run Unmarshal evs Initialize = Some (tt, h)) :
  0 < GetCurrentSendInterval h m.
Proof.
  destruct (sys_run_inv Unmarshal evs Initialize h tt inv_Initialize Hrun) as (_ & Hpos & _).
  unfold GetCurrentSendInterval, read_interval.
  destruct (currentSendInterval h !! m) as [d |] eqn:Hd; simpl.
  - pose proof (Hpos m d Hd) as Hd0. destruct (Z.eqb_spec d 0); [lia | exact Hd0].
  - unfold Second. lia.
Qed.

Lemma reachable_interval_positive_witness :
  exists h,
    sys_run (fun _ => mkSendIntervalPayload "" 0)
      [SSetSendInterval "AA:BB:CC:DD:EE:FF" Second; SCanSend "AA:BB:CC:DD:EE:FF"]
      Initialize = Some (tt, h) /\
    0 < GetCurrentSendInterval h "AA:BB:CC:DD:EE:FF".
Proof.
  eexists. split; [reflexivity |].
  apply (reachable_interval_positive (fun _ => mkSendIntervalPayload "" 0)
           [SSetSendInterval "AA:BB:CC:DD:EE:FF" Second; SCanSend "AA:BB:CC:DD:EE:FF"]).
  reflexivity.
Defined.

(** In a reachable state, a reset of a device that has a ticker never
    panics: the Timer Owner stops the old ticker, installs a fresh one
    running at the device's current interval, keeps the intervals, and the
    next [GetCanSend] of the device reports [false]. *)
Theorem reachable_reset_rearms (Unmarshal : list Byte.byte -> SendIntervalPayload)
  (evs : list SysEvent) (h : hermes) (m : string) (p : positive)
  (Hrun : sys_run Unmarshal evs Initialize = Some (tt, h))
  (Hp : sendTicker h !! m = Some p) :
  exists h' h'',
    sendTimer_step (CResetTimer m) h = Some (tt, h') /\
    currentSendInterval h' = currentSendInterval h /\
    sendTicker h' !! m = Some (next_ticker h) /\
    tickers h' !! next_ticker h = Some (mkTicker (GetCurrentSendInterval h m) false false) /\
    (forall tk, tickers h !! p = Some tk -> tickers h' !! p = Some (stopped tk)) /\
    GetCanSend m h' = Some (false, h'').
Proof.
  destruct (sys_run_inv Unmarshal evs Initialize h tt inv_Initialize Hrun)
    as (Hwf & Hpos & Hent).
  destruct (Hent m p Hp) as [[d Hd] _]. pose proof (Hpos m d Hd) as Hd0.
  assert (Hr : read_interval h m = d) by (unfold read_interval; rewrite Hd; reflexivity).
  assert (Hg : GetCurrentSendInterval h m = d)
    by (unfold GetCurrentSendInterval; rewrite Hr; destruct (Z.eqb_spec d 0); [lia | reflexivity]).
  assert (Hlt : forall tk, tickers h !! p = Some tk -> p <> next_ticker h)
    by (intros tk Htk E; apply (proj1 Hwf) in Htk; lia).
  rewrite Hg. exists (after_reset h m). eexists. split.
  { apply (reset_step_ok h m p Hwf Hp). lia. }
  unfold after_reset. simpl. split; [reflexivity |].
  split; [apply lookup_insert_eq |].
  split; [rewrite lookup_insert_eq, Hr; reflexivity |].
  split.
  - intros tk Htk. rewrite lookup_insert_ne by (apply not_eq_sym, (Hlt tk Htk)).
    unfold stop_old. rewrite Hp, Htk. apply lookup_insert_eq.
  - eapply (GetCanSend_ticker _ m (next_ticker h) (mkTicker (read_interval h m) false false));
      simpl; [apply lookup_insert_eq | apply lookup_insert_eq |].
    rewrite lookup_insert_eq. eexists. reflexivity.
Qed.

Lemma reachable_reset_rearms_witness :
  exists h,
    sys_run (fun _ => mkSendIntervalPayload "" 0)
      [SSetSendInterval "AA:BB:CC:DD:EE:FF" Second] Initialize = Some (tt, h) /\
    sendTicker h !! "AA:BB:CC:DD:EE:FF" = Some 1%positive /\
    exists h' h'', sendTimer_step (CResetTimer "AA:BB:CC:DD:EE:FF") h = Some (tt, h') /\
                   GetCanSend "AA:BB:CC:DD:EE:FF" h' = Some (false, h'').
Proof.
  eexists. split; [reflexivity |]. split; [reflexivity |].
  destruct (reachable_reset_rearms (fun _ => mkSendIntervalPayload "" 0)
              [SSetSendInterval "AA:BB:CC:DD:EE:FF" Second] _ "AA:BB:CC:DD:EE:FF" 1%positive
              ltac:(reflexivity) ltac:(reflexivity))
    as (h' & h'' & H1 & _ & _ & _ & _ & H2).
  exists h', h''. split; [exact H1 | exact H2].
Defined.

(** In a reachable state, [GetCanSend] on a device with a ticker reports
    whether the ticker had fired and consumes that tick: an immediate
    second call reports [false]. *)
Theorem GetCanSend_drains (Unmarshal : list Byte.byte -> SendIntervalPayload)
  (evs : list SysEvent) (h : hermes) (m : string) (p : positive) (tk : Ticker)
  (Hrun : sys_run Unmarshal evs Initialize = Some (tt, h))
  (Hp : sendTicker h !! m = Some p) (Htk : tickers h !! p = Some tk) :
  exists h1 h2,
    GetCanSend m h = Some (tk_pending tk, h1) /\ GetCanSend m h1 = Some (false, h2).
Proof.
  destruct (sys_run_inv Unmarshal evs Initialize h tt inv_Initialize Hrun) as (_ & _ & Hent).
  destruct (Hent m p Hp) as [_ Hc].
  rewrite (GetCanSend_ticker h m p tk Hp Htk Hc).
  destruct (tk_pending tk) eqn:Ep; eexists; eexists; split; try reflexivity.
  - eapply (GetCanSend_ticker _ m p (mkTicker (tk_period tk) (tk_stopped tk) false)); simpl;
      [exact Hp | apply lookup_insert_eq |].
    rewrite lookup_insert_eq. eexists. reflexivity.
  - pose proof (GetCanSend_ticker (set_canSend (<[m := false]> (canSend h)) h) m p tk
                  Hp Htk) as G.
    rewrite Ep in G. apply G. simpl. rewrite lookup_insert_eq. eexists. reflexivity.
Qed.

Lemma GetCanSend_drains_witness :
  exists h,
    sys_run (fun _ => mkSendIntervalPayload "" 0)
      [SSetSendInterval "AA:BB:CC:DD:EE:FF" Second; STick 1%positive] Initialize
      = Some (tt, h) /\
    exists h1 h2, GetCanSend "AA:BB:CC:DD:EE:FF" h = Some (true, h1) /\
                  GetCanSend "AA:BB:CC:DD:EE:FF" h1 = Some (false, h2).
Proof.
  eexists. split; [reflexivity |].
  apply (GetCanSend_drains (fun _ => mkSendIntervalPayload "" 0)
           [SSetSendInterval "AA:BB:CC:DD:EE:FF" Second; STick 1%positive] _
           "AA:BB:CC:DD:EE:FF" 1%positive (mkTicker Second false true));
    reflexivity.
Defined.

(** ** TimerSet, end to end *)

(** A [TimerSet] with a positive period closes the device's gate: the next
    [GetCanSend] reports [false] even if the old ticker had fired, and a
    later tick of the replaced ticker changes nothing. *)
Theorem set_closes_gate (h : hermes) (m : string) (d : Duration)
  (Hwf : wf h) (Hd : 0 < d) :
  exists h' h'',
    sendTimer_step (CSetTimer (mkTimer d TimerSendInterval m)) h = Some (tt, h') /\
    GetCanSend m h' = Some (false, h'') /\
    (forall p, sendTicker h !! m = Some p -> tick p h' = h').
Proof.
  exists (after_set h m d). eexists. split; [exact (set_step_ok h m d Hwf Hd) |].
  split; [apply after_set_GetCanSend |].
  intros p Hp. destruct Hwf as [Hlt Hal]. destruct (Hal m p Hp) as [tk Htk].
  assert (Hne : next_ticker h <> p) by (intros E; apply Hlt in Htk; lia).
  unfold tick. simpl. rewrite lookup_insert_ne by exact Hne.
  unfold stop_old. rewrite Hp, Htk, lookup_insert_eq. reflexivity.
Qed.

Lemma set_closes_gate_witness :
  exists h' h'',
    sendTimer_step (CSetTimer (mkTimer Second TimerSendInterval "AA:BB:CC:DD:EE:FF"))
      Initialize = Some (tt, h') /\
    GetCanSend "AA:BB:CC:DD:EE:FF" h' = Some (false, h'').
Proof.
  destruct (set_closes_gate Initialize "AA:BB:CC:DD:EE:FF" Second wf_Initialize
              ltac:(reflexivity)) as (h' & h'' & H1 & H2 & _).
  exists h', h''. split; [exact H1 | exact H2].
Defined.

(** [SetSendInterval] with a positive interval, then
    [GetCurrentSendInterval], reads back that interval; the other devices
    keep theirs. *)
Theorem SetSendInterval_roundtrip (Unmarshal : list Byte.byte -> SendIntervalPayload)
  (h : hermes) (m : string) (d : Duration) (Hwf : wf h) (Hd : 0 < d) :
  exists h',
    sys_step Unmarshal (SSetSendInterval m d) h = Some (tt, h') /\
    forall k, GetCurrentSendInterval h' k =
                if String.eqb k m then d else GetCurrentSendInterval h k.
Proof.
  exists (after_set h m d). split; [exact (deliver_set_ok h m d Hwf Hd) |].
  intros k. exact (GetCurrentSendInterval_after_set h m k d Hd).
Qed.

Lemma SetSendInterval_roundtrip_witness :
  exists h',
    sys_step (fun _ => mkSendIntervalPayload "" 0)
      (SSetSendInterval "AA:BB:CC:DD:EE:FF" (5 * Second)) Initialize = Some (tt, h') /\
    GetCurrentSendInterval h' "AA:BB:CC:DD:EE:FF" = 5 * Second.
Proof.
  destruct (SetSendInterval_roundtrip (fun _ => mkSendIntervalPayload "" 0) Initialize
              "AA:BB:CC:DD:EE:FF" (5 * Second) wf_Initialize ltac:(reflexivity))
    as (h' & H1 & H2).
  exists h'. split; [exact H1 | rewrite H2; reflexivity].
Defined.

(** A model message, end to end: [initialModel] is cleared, the device's
    interval becomes ten seconds and its gate is closed. *)
Theorem model_message_closes_gate (Unmarshal : list Byte.byte -> SendIntervalPayload)
  (msg : Message) (h : hermes) (Hwf : wf h) :
  exists h' h'',
    sys_step Unmarshal (SModel msg) h = Some (tt, h') /\
    initialModel h' = false /\
    GetCurrentSendInterval h' (parseTopicMac (msg_topic msg)) = Second * 10 /\
    GetCanSend (parseTopicMac (msg_topic msg)) h' = Some (false, h'').
Proof.
  set (m := parseTopicMac (msg_topic msg)).
  exists (after_set (set_initialModel false h) m (Second * 10)). eexists. split.
  { change (deliver [SendSetTimer (mkTimer (Second * 10) TimerSendInterval m)]
              (set_initialModel false h)
            = Some (tt, after_set (set_initialModel false h) m (Second * 10))).
    apply deliver_set_ok; [exact Hwf | reflexivity]. }
  split; [reflexivity |]. split.
  - rewrite GetCurrentSendInterval_after_set by reflexivity.
    rewrite String.eqb_refl. reflexivity.
  - apply after_set_GetCanSend.
Qed.

Lemma model_message_closes_gate_witness :
  exists h' h'',
    sys_step (fun _ => mkSendIntervalPayload "" 0)
      (SModel (mkMessage "hermes/global/AA:BB:CC:DD:EE:FF/model/receive" [])) Initialize
      = Some (tt, h') /\
    GetCanSend "AA:BB:CC:DD:EE:FF" h' = Some (false, h'').
Proof.
  destruct (model_message_closes_gate (fun _ => mkSendIntervalPayload "" 0)
              (mkMessage "hermes/global/AA:BB:CC:DD:EE:FF/model/receive" []) Initialize
              wf_Initialize) as (h' & h'' & H1 & _ & _ & H2).
  exists h', h''. split; [exact H1 | exact H2].
Defined.

(** An interval message with [send_interval = n] minutes, [n] between 1
    and the largest value whose duration fits [time.Duration], for a topic
    with a device id, end to end: the device's interval becomes [n]
    minutes and its gate is closed. *)
Theorem interval_message_rearms (Unmarshal : list Byte.byte -> SendIntervalPayload)
  (msg : Message) (h : hermes) (n : Z) (Hwf : wf h)
  (Hn : SendInterval (Unmarshal (msg_payload msg)) = n)
  (Hrange : 1 <= n <= 153722867)
  (Hmac : parseTopicMac (msg_topic msg) <> "") :
  exists h' h'',
    sys_step Unmarshal (SInterval msg) h = Some (tt, h') /\
    GetCurrentSendInterval h' (parseTopicMac (msg_topic msg)) = n * Minute /\
    GetCanSend (parseTopicMac (msg_topic msg)) h' = Some (false, h'').
Proof.
  set (m := parseTopicMac (msg_topic msg)).
  assert (Hpos : 0 < n * Minute) by (unfold Minute, Second; lia).
  assert (Hw : wrap64 (Minute * n) = n * Minute)
    by (rewrite wrap64_small; unfold Minute, Second; lia).
  assert (E : HandleReceiveInterval Unmarshal msg h =
              (h, [SendSetTimer (mkTimer (n * Minute) TimerSendInterval m)])).
  { unfold HandleReceiveInterval. fold m. rewrite Hn.
    destruct (Z.eqb_spec n 0); [lia |].
    destruct (String.eqb_spec m ""); [contradiction |].
    simpl. rewrite Hw. reflexivity. }
  exists (after_set h m (n * Minute)). eexists. split.
  { change (handle_then_deliver (HandleReceiveInterval Unmarshal msg h) h
            = Some (tt, after_set h m (n * Minute))).
    unfold handle_then_deliver. rewrite E. exact (deliver_set_ok h m _ Hwf Hpos). }
  split.
  - rewrite GetCurrentSendInterval_after_set by exact Hpos.
    rewrite String.eqb_refl. reflexivity.
  - apply after_set_GetCanSend.
Qed.

Lemma interval_message_rearms_witness :
  exists h' h'',
    sys_step (fun _ => mkSendIntervalPayload "AA:BB:CC:DD:EE:FF" 5)
      (SInterval (mkMessage "hermes/global/AA:BB:CC:DD:EE:FF/interval/receive" []))
      Initialize = Some (tt, h') /\
    GetCurrentSendInterval h' "AA:BB:CC:DD:EE:FF" = 5 * Minute /\
    GetCanSend "AA:BB:CC:DD:EE:FF" h' = Some (false, h'').
Proof.
  apply (interval_message_rearms (fun _ => mkSendIntervalPayload "AA:BB:CC:DD:EE:FF" 5)
           (mkMessage "hermes/global/AA:BB:CC:DD:EE:FF/interval/receive" []) Initialize 5
           wf_Initialize).
  - reflexivity.
  - lia.
  - vm_compute. discriminate.
Defined.

(** ** The request payloads *)

(** The [initial] flag that [RequestNewModel] and [RequestNewInterval]
    send is [true] exactly until the first model message has been
    handled. *)
Theorem initial_flag_trace (Unmarshal : list Byte.byte -> SendIntervalPayload)
  (evs : list SysEvent) (h : hermes) (lastModelUpdate : Z) (m : string)
  (Hrun : sys_run Unmarshal evs Initialize = Some (tt, h)) :
  rq_Initial (requestPayload lastModelUpdate m h) = negb (existsb is_model_event evs).
Proof.
  unfold requestPayload. simpl.
  exact (sys_run_initialModel Unmarshal evs Initialize h tt Hrun).
Qed.

Lemma initial_flag_trace_witness :
  exists h,
    sys_run (fun _ => mkSendIntervalPayload "" 0)
      [SSetSendInterval "AA:BB:CC:DD:EE:FF" Second;
       SModel (mkMessage "hermes/global/AA:BB:CC:DD:EE:FF/model/receive" [])]
      Initialize = Some (tt, h) /\
    rq_Initial (requestPayload 0 "AA:BB:CC:DD:EE:FF" h) = false.
Proof.
  eexists. split; [reflexivity |].
  apply (initial_flag_trace (fun _ => mkSendIntervalPayload "" 0)
           [SSetSendInterval "AA:BB:CC:DD:EE:FF" Second;
            SModel (mkMessage "hermes/global/AA:BB:CC:DD:EE:FF/model/receive" [])]).
  reflexivity.
Defined.

(** Model requests and interval requests go to different topics, and each
    request topic names one device. *)
Theorem request_topics_distinct (m1 m2 : string) :
  modelRequestTopic m1 <> intervalRequestTopic m2 /\
  (modelRequestTopic m1 = modelRequestTopic m2 -> m1 = m2) /\
  (intervalRequestTopic m1 = intervalRequestTopic m2 -> m1 = m2).
Proof.
  unfold modelRequestTopic, intervalRequestTopic. split; [| split].
  - intros E. apply string_append_cancel_l, string_append_cancel_l in E.
    destruct (string_suffix _ _ _ _ E) as [c Ec]; [apply Nat.leb_le; reflexivity |].
    pose proof (f_equal String.length Ec) as Hl. rewrite string_length_append in Hl.
    destruct c as [| x1 [| x2 [| x3 [| x4 c]]]]; simpl in Hl; try lia.
    vm_compute in Ec. discriminate Ec.
  - intros E. apply string_append_cancel_l, string_append_cancel_l in E.
    exact (string_append_cancel_r _ _ _ E).
  - intros E. apply string_append_cancel_l, string_append_cancel_l in E.
    exact (string_append_cancel_r _ _ _ E).
Qed.
